(** * blaze/expr/utils.h: subterm count and subterm access on ATerms

    The header defines two C functions over the ATerm library (aterm2.h):

      - [subterms], the number of subterms of a term, and
      - [next_subterm], the n-th subterm of a term.

    Both switch on the type tag of the term's header and hand the work to
    the library's accessors.  The library is not part of the repository, so
    its accessors are an interface here ([ATermLib]); the two functions are
    embedded over it, statement by statement.  A word-level instance of the
    interface ([Cells]) is used to run them on concrete term heaps.  The
    store that builds and shares terms is not in the header either; the
    model of it ([Store]) follows its description. *)

From Stdlib Require Import ZArith List Bool Lia.
From Stdlib Require Strings.Byte.
Import ListNotations.
Open Scope Z_scope.

(** ** C values *)

(** An [ATerm] is a pointer to a term cell: an address. *)
Definition ATerm : Type := Z.

(** A [Symbol] is an index into the library's symbol table. *)
Definition Symbol : Type := Z.

(** The header word of a term cell. *)
Definition header_type : Type := Z.

(** The null pointer. *)
Definition NULL : ATerm := 0.

(** [return p;] in a function whose return type is [int]: the pointer is
    converted to a 32-bit signed integer (the low 32 bits of the address). *)
Definition int_of_pointer (p : Z) : Z :=
  (p + 2147483648) mod 4294967296 - 2147483648.

(** ** The ATerm library, as utils.h uses it *)

(** The accessors of aterm2.h are macros that read the term heap and the
    symbol table; none of them writes.  [heap] is that memory. *)
Class ATermLib : Type := {
  heap : Type;
  (** [t->header] *)
  load_header : heap -> ATerm -> header_type;
  (** [GET_TYPE(h)], the type tag of a header *)
  GET_TYPE : header_type -> Z;
  (** the type tags named by the two switches *)
  AT_INT : Z;
  AT_REAL : Z;
  AT_BLOB : Z;
  AT_APPL : Z;
  (** [ATgetSymbol((ATermAppl) t)] *)
  ATgetSymbol : heap -> ATerm -> Symbol;
  (** [ATgetArity(sym)] *)
  ATgetArity : heap -> Symbol -> Z;
  (** [ATgetArgument((ATermAppl) t, n)] *)
  ATgetArgument : heap -> ATerm -> Z -> ATerm
}.

(** Which [return] statement of a function was executed: the one under the
    case labels or the one under [default:]. *)
Inductive branch : Type :=
| in_case
| in_default.

(** [switch (x) { case l1: ... case ln: body  default: ... }] with all the
    labels on one body: the body runs when [x] equals one of the labels. *)
Definition case_of (x : Z) (labels : list Z) : bool :=
  existsb (Z.eqb x) labels.

Section Utils.

Context {L : ATermLib}.

(** C statements as state passing over the heap. *)
Definition M (A : Type) : Type := heap -> A * heap.

Definition ret {A : Type} (a : A) : M A := fun m => (a, m).

Definition bind {A B : Type} (c : M A) (k : A -> M B) : M B :=
  fun m => let (a, m') := c m in k a m'.

(** A macro that reads memory. *)
Definition read {A : Type} (f : heap -> A) : M A := fun m => (f m, m).

Notation "x <- c1 ;; c2" := (bind c1 (fun x => c2))
  (at level 61, c1 at next level, right associativity).

(** [int subterms(ATerm t)] *)
Definition subterms (t : ATerm) : M (branch * Z) :=
  hd <- read (fun m => load_header m t) ;;
  if case_of (GET_TYPE hd) [AT_INT; AT_REAL; AT_BLOB; AT_APPL] then
    sym <- read (fun m => ATgetSymbol m t) ;;
    arity <- read (fun m => ATgetArity m sym) ;;
    ret (in_case, arity)
  else
    ret (in_default, int_of_pointer NULL).

(** [ATerm* next_subterm(ATerm t, int n)] *)
Definition next_subterm (t : ATerm) (n : Z) : M (branch * ATerm) :=
  hd <- read (fun m => load_header m t) ;;
  if case_of (GET_TYPE hd) [AT_INT; AT_REAL; AT_BLOB; AT_APPL] then
    arg <- read (fun m => ATgetArgument m t n) ;;
    ret (in_case, arg)
  else
    ret (in_default, NULL).

(** The value a call returns, the [return] it left through, and the heap
    it leaves behind. *)
Definition subterms_result (m : heap) (t : ATerm) : Z :=
  snd (fst (subterms t m)).

Definition subterms_branch (m : heap) (t : ATerm) : branch :=
  fst (fst (subterms t m)).

Definition next_subterm_result (m : heap) (t : ATerm) (n : Z) : ATerm :=
  snd (fst (next_subterm t n m)).

Definition next_subterm_branch (m : heap) (t : ATerm) (n : Z) : branch :=
  fst (fst (next_subterm t n m)).

(** The type tag of a term. *)
Definition type_of (m : heap) (t : ATerm) : Z :=
  GET_TYPE (load_header m t).

(** The caller's loop over a term's subterms,
    [for (i = from; i < from + k; i++) next_subterm(t, i)],
    collecting what the calls return. *)
Fixpoint subterms_from (t : ATerm) (from : Z) (k : nat) : M (list ATerm) :=
  match k with
  | O => ret []
  | S k' =>
      r <- next_subterm t from ;;
      rest <- subterms_from t (from + 1) k' ;;
      ret (snd r :: rest)
  end.

(** Enumerating the children of [t]: index 0 up to [subterms(t) - 1]. *)
Definition children (t : ATerm) : M (list ATerm) :=
  r <- subterms t ;;
  subterms_from t 0 (Z.to_nat (snd r)).

(** Running the same computation twice in a row, keeping both results. *)
Definition twice {A : Type} (c : M A) : M (A * A) :=
  a <- c ;;
  b <- c ;;
  ret (a, b).

(** The four type tags the two switches list as case labels. *)
Definition listed_kind (ty : Z) : Prop :=
  ty = AT_INT \/ ty = AT_REAL \/ ty = AT_BLOB \/ ty = AT_APPL.

(** An atomic scalar term: an integer, a real or a blob. *)
Definition scalar_kind (ty : Z) : Prop :=
  ty = AT_INT \/ ty = AT_REAL \/ ty = AT_BLOB.

(** The cell [t] of heap [m] is the application of symbol [s] to the
    children [cs], as the library's accessors see it: an application tag,
    [s] as its symbol, as many children as [s] has arguments, and [cs] as
    its argument words, in order. *)
Definition is_application (m : heap) (t : ATerm) (s : Symbol)
    (cs : list ATerm) : Prop :=
  type_of m t = AT_APPL /\
  ATgetSymbol m t = s /\
  ATgetArity m s = Z.of_nat (length cs) /\
  forall (i : nat) (c : ATerm),
    nth_error cs i = Some c -> ATgetArgument m t (Z.of_nat i) = c.

End Utils.

(** ** A word-level instance of the library

    Term cells laid out in a word-addressed memory, with the header layout
    of the ATerm library (32-bit encoding): bits 4-6 of a header hold the
    type tag, bits 7-9 the inline arity, and the bits from 10 up the symbol
    of an application or the length of a list, blob or symbol entry.  A
    cell is its header, a [next] word, and then its arguments. *)
Module Cells.

Record memory : Type := {
  words : list Z;            (* the word at address [a] is [nth a words] *)
  at_lookup_table : list Z   (* symbol index -> address of its entry *)
}.

(** The word stored at address [a]; an address outside the memory reads
    as 0. *)
Definition load (m : memory) (a : Z) : Z :=
  if a <? 0 then 0 else nth (Z.to_nat a) (words m) 0.

Definition MASK_TYPE : Z := 112.   (* (1<<4) | (1<<5) | (1<<6) *)
Definition SHIFT_TYPE : Z := 4.
Definition SHIFT_ARITY : Z := 7.
Definition SHIFT_LENGTH : Z := 10.
Definition SHIFT_SYMBOL : Z := SHIFT_LENGTH.
Definition ARG_OFFSET : Z := 2.

Definition AT_FREE : Z := 0.
Definition AT_APPL : Z := 1.
Definition AT_INT : Z := 2.
Definition AT_REAL : Z := 3.
Definition AT_LIST : Z := 4.
Definition AT_PLACEHOLDER : Z := 5.
Definition AT_BLOB : Z := 6.
Definition AT_SYMBOL : Z := 7.

Definition GET_TYPE (h : header_type) : Z :=
  Z.shiftr (Z.land h MASK_TYPE) SHIFT_TYPE.

Definition GET_SYMBOL (h : header_type) : Symbol := Z.shiftr h SHIFT_SYMBOL.

Definition GET_LENGTH (h : header_type) : Z := Z.shiftr h SHIFT_LENGTH.

Definition ATgetSymbol (m : memory) (t : ATerm) : Symbol :=
  GET_SYMBOL (load m t).

(** [GET_LENGTH(at_lookup_table[sym]->header)] *)
Definition ATgetArity (m : memory) (sym : Symbol) : Z :=
  GET_LENGTH (load m (if sym <? 0 then 0
                      else nth (Z.to_nat sym) (at_lookup_table m) 0)).

(** The word [ARG_OFFSET + idx] words after the start of the cell [t]. *)
Definition ATgetArgument (m : memory) (t : ATerm) (idx : Z) : ATerm :=
  load m (t + ARG_OFFSET + idx).

Definition lib : ATermLib :=
  Build_ATermLib memory load GET_TYPE AT_INT AT_REAL AT_BLOB AT_APPL
                 ATgetSymbol ATgetArity ATgetArgument.

(** Headers, as the library's constructors compose them. *)
Definition APPL_HEADER (ari sym : Z) : header_type :=
  Z.lor (Z.lor (Z.shiftl ari SHIFT_ARITY) (Z.shiftl AT_APPL SHIFT_TYPE))
        (Z.shiftl sym SHIFT_SYMBOL).

Definition INT_HEADER : header_type := Z.shiftl AT_INT SHIFT_TYPE.

Definition LIST_HEADER (len : Z) : header_type :=
  Z.lor (Z.lor (Z.shiftl AT_LIST SHIFT_TYPE) (Z.shiftl len SHIFT_LENGTH))
        (Z.shiftl 2 SHIFT_ARITY).

Definition BLOB_HEADER (len : Z) : header_type :=
  Z.lor (Z.lor (Z.shiftl AT_BLOB SHIFT_TYPE) (Z.shiftl len SHIFT_LENGTH))
        (Z.shiftl 2 SHIFT_ARITY).

Definition SYMBOL_HEADER (arity : Z) : header_type :=
  Z.lor (Z.shiftl arity SHIFT_LENGTH) (Z.shiftl AT_SYMBOL SHIFT_TYPE).

(** A small heap: the symbols [c/0] (index 0) and [f/2] (index 1), the
    integers 1 and 2, the applications [f(1,2)] and [c], a blob of one
    byte and the list [[1]]. *)
Definition sym_c : Symbol := 0.
Definition sym_f : Symbol := 1.
Definition int_1 : ATerm := 5.
Definition int_2 : ATerm := 8.
Definition appl_f12 : ATerm := 11.
Definition appl_c : ATerm := 15.
Definition blob_1 : ATerm := 17.
Definition list_1 : ATerm := 20.
Definition list_nil : ATerm := 24.

Definition sample : memory := {|
  words :=
    [ 0;                                       (*  0: never a cell (NULL) *)
      SYMBOL_HEADER 0; 0;                      (*  1: symbol c/0 *)
      SYMBOL_HEADER 2; 0;                      (*  3: symbol f/2 *)
      INT_HEADER; 0; 1;                        (*  5: the integer 1 *)
      INT_HEADER; 0; 2;                        (*  8: the integer 2 *)
      APPL_HEADER 2 sym_f; 0; int_1; int_2;    (* 11: f(1,2) *)
      APPL_HEADER 0 sym_c; 0;                  (* 15: c *)
      BLOB_HEADER 1; 0; 4096;                  (* 17: a blob of 1 byte *)
      LIST_HEADER 1; 0; int_1; list_nil;       (* 20: [1] *)
      LIST_HEADER 0; 0; 0; 0 ];                (* 24: [] *)
  at_lookup_table := [1; 3]
|}.

End Cells.

(** ** The term store and the term builder

    utils.h constructs no term: it only reads terms some other component
    built.  The store of hash-consed terms and the builder in front of it
    are therefore modelled after their description. *)
Module Store.

(** Modelled from the spec: the Term Handle (section 3), "arena-indexed
    handle into the Store"; the code that defines handles is not in
    utils.h. *)
Definition Handle : Type := nat.

(** Modelled from the spec: the Symbol (section 3), "identifier with a name
    and a fixed declared arity"; the name is a key, the arity a count. *)
Record Symbol : Type := {
  name : nat;
  arity : nat
}.

(** Modelled from the spec: the Term (section 3), "variants {Integer, Real,
    Blob(bytes), Application(symbol, ordered sequence of child Term
    handles)}".  A real is held by its 64-bit pattern. *)
Inductive Term : Type :=
| Integer (value : Z)
| Real (bits : Z)
| Blob (bytes : list Byte.byte)
| Application (s : Symbol) (children : list Handle).

(** Modelled from the spec: the error taxonomy (section 7). *)
Inductive ErrorKind : Type :=
| IndexOutOfRange
| NotApplicable
| ArityMismatch
| ArityConflict.

Definition Symbol_eqb (a b : Symbol) : bool :=
  Nat.eqb (name a) (name b) && Nat.eqb (arity a) (arity b).

Fixpoint list_eqb {A : Type} (eqb : A -> A -> bool) (xs ys : list A) : bool :=
  match xs, ys with
  | [], [] => true
  | x :: xs', y :: ys' => eqb x y && list_eqb eqb xs' ys'
  | _, _ => false
  end.

(** Structural equality of terms: same variant, same payload. *)
Definition Term_eqb (a b : Term) : bool :=
  match a, b with
  | Integer x, Integer y => Z.eqb x y
  | Real x, Real y => Z.eqb x y
  | Blob x, Blob y => list_eqb Strings.Byte.eqb x y
  | Application s cs, Application s' cs' =>
      Symbol_eqb s s' && list_eqb Nat.eqb cs cs'
  | _, _ => false
  end.

(** Modelled from the spec: the Store (section 3), the pool of term nodes;
    slot [h] of the list is the term behind handle [h]. *)
Definition Store : Type := list Term.

(** The first slot at or after [base] that holds a term structurally equal
    to [tm]. *)
Fixpoint find_slot (tm : Term) (slots : list Term) (base : Handle)
  : option Handle :=
  match slots with
  | [] => None
  | x :: rest =>
      if Term_eqb tm x then Some base else find_slot tm rest (S base)
  end.

(** Modelled from the spec: [intern] (section 4.1), "returns a Handle to the
    canonical existing term if one with identical structure already
    exists, otherwise creates and registers one". *)
Definition intern (st : Store) (tm : Term) : Handle * Store :=
  match find_slot tm st O with
  | Some h => (h, st)
  | None => (length st, st ++ [tm])
  end.

(** Modelled from the spec: the Term Builder (section 4.4); [apply] "fails
    with ArityMismatch when the child-sequence length disagrees with the
    symbol's declared arity", and all four operations go through
    [intern]. *)
Definition apply (st : Store) (s : Symbol) (cs : list Handle)
  : (Handle + ErrorKind) * Store :=
  if Nat.eqb (length cs) (arity s) then
    let (h, st') := intern st (Application s cs) in (inl h, st')
  else (inr ArityMismatch, st).

Definition integer (st : Store) (value : Z) : (Handle + ErrorKind) * Store :=
  let (h, st') := intern st (Integer value) in (inl h, st').

Definition real (st : Store) (bits : Z) : (Handle + ErrorKind) * Store :=
  let (h, st') := intern st (Real bits) in (inl h, st').

Definition blob (st : Store) (bytes : list Byte.byte)
  : (Handle + ErrorKind) * Store :=
  let (h, st') := intern st (Blob bytes) in (inl h, st').

(** A construction call with its arguments. *)
Inductive call : Type :=
| call_apply (s : Symbol) (cs : list Handle)
| call_integer (value : Z)
| call_real (bits : Z)
| call_blob (bytes : list Byte.byte).

Definition run (st : Store) (c : call) : (Handle + ErrorKind) * Store :=
  match c with
  | call_apply s cs => apply st s cs
  | call_integer v => integer st v
  | call_real b => real st b
  | call_blob bs => blob st bs
  end.

(** The store after a sequence of construction calls. *)
Definition run_all (st : Store) (cs : list call) : Store :=
  fold_left (fun s c => snd (run s c)) cs st.

End Store.

(** * Properties of [subterms] and [next_subterm] *)

Section UtilsFacts.

Context {L : ATermLib}.

Lemma case_of_listed (ty : Z) :
  case_of ty [AT_INT; AT_REAL; AT_BLOB; AT_APPL] = true <-> listed_kind ty.
Proof.
  unfold case_of, listed_kind; simpl.
  rewrite !orb_true_iff, !Z.eqb_eq.
  intuition discriminate.
Qed.

Lemma case_of_not_listed (ty : Z) :
  case_of ty [AT_INT; AT_REAL; AT_BLOB; AT_APPL] = false <-> ~ listed_kind ty.
Proof.
  rewrite <- case_of_listed.
  destruct (case_of ty _); intuition congruence.
Qed.

(** What a call of [subterms] comes to, in one step. *)
Lemma subterms_run (m : heap) (t : ATerm) :
  subterms t m =
  (if case_of (type_of m t) [AT_INT; AT_REAL; AT_BLOB; AT_APPL]
   then (in_case, ATgetArity m (ATgetSymbol m t))
   else (in_default, int_of_pointer NULL), m).
Proof.
  unfold subterms, bind, read, ret, type_of.
  destruct (case_of _ _); reflexivity.
Qed.

(** What a call of [next_subterm] comes to, in one step. *)
Lemma next_subterm_run (m : heap) (t : ATerm) (n : Z) :
  next_subterm t n m =
  (if case_of (type_of m t) [AT_INT; AT_REAL; AT_BLOB; AT_APPL]
   then (in_case, ATgetArgument m t n)
   else (in_default, NULL), m).
Proof.
  unfold next_subterm, bind, read, ret, type_of.
  destruct (case_of _ _); reflexivity.
Qed.

Lemma subterms_listed (m : heap) (t : ATerm) :
  listed_kind (type_of m t) ->
  subterms t m = ((in_case, ATgetArity m (ATgetSymbol m t)), m).
Proof.
  intros H. apply case_of_listed in H.
  rewrite subterms_run, H. reflexivity.
Qed.

Lemma subterms_unlisted (m : heap) (t : ATerm) :
  ~ listed_kind (type_of m t) ->
  subterms t m = ((in_default, int_of_pointer NULL), m).
Proof.
  intros H. apply case_of_not_listed in H.
  rewrite subterms_run, H. reflexivity.
Qed.

Lemma next_subterm_listed (m : heap) (t : ATerm) (n : Z) :
  listed_kind (type_of m t) ->
  next_subterm t n m = ((in_case, ATgetArgument m t n), m).
Proof.
  intros H. apply case_of_listed in H.
  rewrite next_subterm_run, H. reflexivity.
Qed.

Lemma next_subterm_unlisted (m : heap) (t : ATerm) (n : Z) :
  ~ listed_kind (type_of m t) ->
  next_subterm t n m = ((in_default, NULL), m).
Proof.
  intros H. apply case_of_not_listed in H.
  rewrite next_subterm_run, H. reflexivity.
Qed.

Lemma scalar_is_listed (ty : Z) : scalar_kind ty -> listed_kind ty.
Proof. unfold scalar_kind, listed_kind. tauto. Qed.

(** No call writes to the heap. *)
Lemma subterms_heap (m : heap) (t : ATerm) : snd (subterms t m) = m.
Proof. rewrite subterms_run. reflexivity. Qed.

Lemma next_subterm_heap (m : heap) (t : ATerm) (n : Z) :
  snd (next_subterm t n m) = m.
Proof. rewrite next_subterm_run. reflexivity. Qed.

(** The loop over [k] indices from [from] returns the results of the [k]
    calls, in index order, and the heap it started from. *)
Lemma subterms_from_run (m : heap) (t : ATerm) (k : nat) :
  forall from : Z,
    subterms_from t from k m =
    (map (fun i : nat => next_subterm_result m t (from + Z.of_nat i))
         (seq 0 k), m).
Proof.
  induction k as [|k IH]; intros from.
  - reflexivity.
  - cbn [subterms_from]. unfold bind at 1.
    pose proof (next_subterm_heap m t from) as Hm.
    unfold next_subterm_result.
    destruct (next_subterm t from m) as [r m'] eqn:E. simpl in Hm. subst m'.
    unfold bind at 1. rewrite IH. unfold ret.
    cbn [seq map]. rewrite Z.add_0_r, E. cbn [fst].
    f_equal. f_equal.
    rewrite <- seq_shift, map_map.
    apply map_ext. intros i. unfold next_subterm_result.
    do 3 f_equal. lia.
Qed.

Lemma children_run (m : heap) (t : ATerm) :
  children t m =
  (map (fun i : nat => next_subterm_result m t (Z.of_nat i))
       (seq 0 (Z.to_nat (subterms_result m t))), m).
Proof.
  unfold children, bind, subterms_result.
  pose proof (subterms_heap m t) as Hm.
  destruct (subterms t m) as [r m'] eqn:E. simpl in Hm. subst m'.
  rewrite subterms_from_run. cbn [fst]. reflexivity.
Qed.

End UtilsFacts.

Section Accessors.

Context {L : ATermLib}.

(** C8. A term whose type tag is AT_INT, AT_REAL or AT_BLOB leaves
    [subterms] through the same [return] as an AT_APPL term does, with the
    same expression as its value: the arity of the symbol read from the
    term taken as an application, [ATgetArity(ATgetSymbol(t))].  A scalar
    gets no zero and no sentinel of its own. *)
Theorem subterms_scalar_as_application (m : heap) (t : ATerm) :
  scalar_kind (type_of m t) ->
  subterms t m = ((in_case, ATgetArity m (ATgetSymbol m t)), m) /\
  forall t' : ATerm,
    type_of m t' = AT_APPL ->
    subterms t' m = ((in_case, ATgetArity m (ATgetSymbol m t')), m).
Proof.
  intros Hs. split.
  - apply subterms_listed, scalar_is_listed, Hs.
  - intros t' Ha. apply subterms_listed.
    unfold listed_kind. auto.
Qed.

(** C9. [next_subterm] checks neither the index nor the kind among the
    four listed tags: for a term tagged AT_INT, AT_REAL, AT_BLOB or AT_APPL
    and any integer [n], negative or past the arity alike, the call returns
    whatever [ATgetArgument(t, n)] returns, through the case [return]. *)
Theorem next_subterm_delegates_unchecked (m : heap) (t : ATerm) (n : Z) :
  listed_kind (type_of m t) ->
  next_subterm t n m = ((in_case, ATgetArgument m t n), m).
Proof.
  intros Hl. rewrite next_subterm_run.
  destruct (case_of (type_of m t) [AT_INT; AT_REAL; AT_BLOB; AT_APPL]) eqn:E.
  - reflexivity.
  - apply case_of_not_listed in E. contradiction.
Qed.

(** C10. The two switches split the term kinds alike: [subterms(t)] leaves
    through its [default:] return exactly when [next_subterm(t, n)] leaves
    through its [default:] return for every [n]. *)
Theorem switches_partition_alike (m : heap) (t : ATerm) :
  subterms_branch m t = in_default <->
  (forall n : Z, next_subterm_branch m t n = in_default).
Proof.
  unfold subterms_branch, next_subterm_branch.
  rewrite subterms_run. split.
  - intros H n. rewrite next_subterm_run.
    destruct (case_of _ _); [discriminate H | reflexivity].
  - intros H. specialize (H 0). rewrite next_subterm_run in H.
    destruct (case_of _ _); [discriminate H | reflexivity].
Qed.

(** C4. For a term of any kind the switch does not list, [subterms]
    returns NULL from its [default:] branch; as the [int] the function
    returns, that is 0, the very value it returns for an application of a
    symbol of arity 0, so the caller cannot tell the two apart. *)
Theorem subterms_default_conflates_with_arity_zero (m : heap) (t : ATerm) :
  ~ listed_kind (type_of m t) ->
  subterms t m = ((in_default, int_of_pointer NULL), m) /\
  int_of_pointer NULL = 0 /\
  forall t' : ATerm,
    type_of m t' = AT_APPL ->
    ATgetArity m (ATgetSymbol m t') = 0 ->
    subterms_branch m t' = in_case /\
    subterms_result m t' = subterms_result m t.
Proof.
  intros Hn. pose proof (subterms_unlisted m t Hn) as Hd.
  split; [exact Hd | split; [reflexivity |]].
  intros t' Ha H0.
  assert (Hl : listed_kind (type_of m t')) by (unfold listed_kind; auto).
  unfold subterms_branch, subterms_result.
  rewrite (subterms_listed m t' Hl), Hd, H0. split; reflexivity.
Qed.

(** C5. For an application term [t] of symbol [s] with children [cs],
    [subterms] returns the length of [cs], and calling [next_subterm] at
    the indices 0 up to [subterms(t) - 1] yields the elements of [cs] in
    their order. *)
Theorem children_of_application (m : heap) (t : ATerm) (s : Symbol)
    (cs : list ATerm) :
  is_application m t s cs ->
  subterms_result m t = Z.of_nat (length cs) /\
  fst (children t m) = cs.
Proof.
  intros (Hty & Hsym & Har & Hargs).
  assert (Hl : listed_kind (type_of m t)) by (unfold listed_kind; auto).
  assert (Hn : subterms_result m t = Z.of_nat (length cs)).
  { unfold subterms_result. rewrite (subterms_listed m t Hl). cbn.
    rewrite Hsym. exact Har. }
  split; [exact Hn |].
  rewrite children_run, Hn, Nat2Z.id. cbn [fst].
  apply nth_error_ext. intros i.
  rewrite nth_error_map.
  destruct (nth_error cs i) as [c|] eqn:E.
  - assert (Hi : (i < length cs)%nat)
      by (apply nth_error_Some; rewrite E; discriminate).
    rewrite nth_error_seq.
    replace (i <? length cs)%nat with true
      by (symmetry; apply Nat.ltb_lt; exact Hi).
    cbn. unfold next_subterm_result.
    rewrite (next_subterm_listed m t _ Hl). cbn.
    f_equal. apply Hargs. exact E.
  - apply nth_error_None in E.
    rewrite nth_error_seq.
    replace (i <? length cs)%nat with false
      by (symmetry; apply Nat.ltb_ge; exact E).
    reflexivity.
Qed.

(** C7. Enumerating children has no effect and can be restarted: a call
    of [next_subterm], of [subterms], or a whole enumeration leaves the
    heap as it found it; a call repeated with the same term and index
    returns the same value; and an enumeration run again from the same
    term yields the same finite sequence, of [subterms(t)] elements. *)
Theorem enumeration_is_pure_and_restartable (m : heap) (t : ATerm) (n : Z) :
  snd (next_subterm t n m) = m /\
  snd (subterms t m) = m /\
  snd (children t m) = m /\
  twice (next_subterm t n) m =
    ((fst (next_subterm t n m), fst (next_subterm t n m)), m) /\
  twice (children t) m =
    ((fst (children t m), fst (children t m)), m) /\
  length (fst (children t m)) = Z.to_nat (subterms_result m t).
Proof.
  repeat split.
  - apply next_subterm_heap.
  - apply subterms_heap.
  - rewrite children_run. reflexivity.
  - unfold twice, bind, ret.
    pose proof (next_subterm_heap m t n) as Hm.
    destruct (next_subterm t n m) as [r m'] eqn:E. simpl in Hm. subst m'.
    rewrite E. reflexivity.
  - unfold twice, bind, ret.
    rewrite children_run. cbn [fst].
    rewrite children_run. reflexivity.
  - rewrite children_run. cbn [fst].
    rewrite length_map, length_seq. reflexivity.
Qed.

(** C2, as amended.  [next_subterm] has no failure for an index: for an
    application term it returns the library's [ATgetArgument(t, i)] for
    every [i], checked against nothing; its one failure value, the null
    pointer, is returned at every index for a term of a kind the switch
    does not list. *)
Theorem next_subterm_null_by_kind_only (m : heap) (t : ATerm) (i : Z) :
  (type_of m t = AT_APPL ->
   next_subterm t i m = ((in_case, ATgetArgument m t i), m)) /\
  (~ listed_kind (type_of m t) ->
   next_subterm t i m = ((in_default, NULL), m)).
Proof.
  split.
  - intros Ha. apply next_subterm_listed. unfold listed_kind. auto.
  - apply next_subterm_unlisted.
Qed.

(** C3, as amended.  The one error of the accessors, a term of a kind
    the switches do not list, is signalled by [next_subterm] with the null
    pointer returned from its [default:] branch, a sentinel and not a typed
    result; and no call, failing or not, changes the heap. *)
Theorem error_is_null_sentinel_and_harmless (m : heap) (t : ATerm) (n : Z) :
  (~ listed_kind (type_of m t) ->
   next_subterm_branch m t n = in_default /\
   next_subterm_result m t n = NULL) /\
  snd (next_subterm t n m) = m /\
  snd (subterms t m) = m.
Proof.
  split; [| split].
  - intros Hn. unfold next_subterm_branch, next_subterm_result.
    rewrite (next_subterm_unlisted m t n Hn). split; reflexivity.
  - apply next_subterm_heap.
  - apply subterms_heap.
Qed.

End Accessors.

(** * The functions on the sample heap *)

Section OnCells.

#[local] Existing Instance Cells.lib.

Import Cells.

(** Type tags of the sample cells. *)
Lemma sample_type_tags :
  type_of sample int_1 = AT_INT /\
  type_of sample appl_f12 = AT_APPL /\
  type_of sample appl_c = AT_APPL /\
  type_of sample blob_1 = AT_BLOB /\
  type_of sample list_1 = AT_LIST.
Proof. repeat split. Qed.

Lemma list_1_not_listed : ~ listed_kind (type_of sample list_1).
Proof.
  unfold listed_kind. cbv. intros [H|[H|[H|H]]]; discriminate H.
Qed.

Lemma appl_f12_is_application :
  is_application sample appl_f12 sym_f [int_1; int_2].
Proof.
  repeat split.
  intros [|[|[|i]]] c H; cbn in H; inversion H; reflexivity.
Qed.

(** C8 at the integer 1 of the sample heap. *)
Lemma subterms_scalar_as_application_witness :
  scalar_kind (type_of sample int_1) /\
  (subterms int_1 sample =
     ((in_case, ATgetArity sample (ATgetSymbol sample int_1)), sample) /\
   forall t' : ATerm,
     type_of sample t' = AT_APPL ->
     subterms t' sample =
       ((in_case, ATgetArity sample (ATgetSymbol sample t')), sample)).
Proof.
  assert (H : scalar_kind (type_of sample int_1)) by (left; reflexivity).
  exact (conj H (subterms_scalar_as_application sample int_1 H)).
Defined.

(** C9 at [f(1,2)] with the index 2, one past its last child. *)
Lemma next_subterm_delegates_unchecked_witness :
  listed_kind (type_of sample appl_f12) /\
  next_subterm appl_f12 2 sample =
    ((in_case, ATgetArgument sample appl_f12 2), sample).
Proof.
  assert (H : listed_kind (type_of sample appl_f12))
    by (right; right; right; reflexivity).
  exact (conj H (next_subterm_delegates_unchecked sample appl_f12 2 H)).
Defined.

(** C4 at the list [[1]] of the sample heap. *)
Lemma subterms_default_conflates_with_arity_zero_witness :
  ~ listed_kind (type_of sample list_1) /\
  (subterms list_1 sample = ((in_default, int_of_pointer NULL), sample) /\
   int_of_pointer NULL = 0 /\
   forall t' : ATerm,
     type_of sample t' = AT_APPL ->
     ATgetArity sample (ATgetSymbol sample t') = 0 ->
     subterms_branch sample t' = in_case /\
     subterms_result sample t' = subterms_result sample list_1).
Proof.
  exact (conj list_1_not_listed
           (subterms_default_conflates_with_arity_zero
              sample list_1 list_1_not_listed)).
Defined.

(** C5 at [f(1,2)]. *)
Lemma children_of_application_witness :
  is_application sample appl_f12 sym_f [int_1; int_2] /\
  subterms_result sample appl_f12 = 2 /\
  fst (children appl_f12 sample) = [int_1; int_2].
Proof.
  exact (conj appl_f12_is_application
           (children_of_application sample appl_f12 sym_f [int_1; int_2]
              appl_f12_is_application)).
Defined.

(** [f(1,2)] has two subterms, the integers 1 and 2, in that order. *)
Example subterms_of_f12 :
  subterms appl_f12 sample = ((in_case, 2), sample) /\
  next_subterm appl_f12 0 sample = ((in_case, int_1), sample) /\
  next_subterm appl_f12 1 sample = ((in_case, int_2), sample).
Proof. repeat split. Qed.

(** C2 at [f(1,2)] and at the list [[1]]. *)
Lemma next_subterm_null_by_kind_only_witness :
  next_subterm appl_f12 2 sample =
    ((in_case, ATgetArgument sample appl_f12 2), sample) /\
  next_subterm list_1 0 sample = ((in_default, NULL), sample).
Proof.
  split.
  - exact (proj1 (next_subterm_null_by_kind_only sample appl_f12 2)
             eq_refl).
  - exact (proj2 (next_subterm_null_by_kind_only sample list_1 0)
             list_1_not_listed).
Defined.

(** C2, the claim as first stated, fails.  On [f(1,2)], whose arity is 2,
    the index 2 and the index -2 are not refused: the call returns the
    words next to the cell, and neither is the null pointer.  On the
    integer 1, an atomic scalar, the index 0 is not refused either. *)
Lemma next_subterm_checks_counterexample :
  subterms_result sample appl_f12 = 2 /\
  next_subterm appl_f12 2 sample = ((in_case, 16), sample) /\
  next_subterm appl_f12 (-2) sample = ((in_case, 1296), sample) /\
  type_of sample int_1 = AT_INT /\
  next_subterm int_1 0 sample = ((in_case, 1), sample) /\
  16 <> NULL /\ 1296 <> NULL /\ 1 <> NULL.
Proof.
  repeat split; unfold NULL; discriminate.
Qed.

(** C1. A blob is an atomic scalar, and [subterms] does not return 0 for
    the blob of the sample heap: the length field of its header, 1, is
    read as a symbol, and the arity of symbol 1, [f/2], is returned. *)
Lemma subterms_of_blob_is_not_zero :
  type_of sample blob_1 = AT_BLOB /\
  ATgetSymbol sample blob_1 = sym_f /\
  subterms blob_1 sample = ((in_case, 2), sample).
Proof. repeat split. Qed.

(** C3 at the list [[1]] of the sample heap. *)
Lemma error_is_null_sentinel_and_harmless_witness :
  (next_subterm_branch sample list_1 0 = in_default /\
   next_subterm_result sample list_1 0 = NULL) /\
  snd (next_subterm list_1 0 sample) = sample /\
  snd (subterms list_1 sample) = sample.
Proof.
  pose proof (error_is_null_sentinel_and_harmless sample list_1 0) as H.
  exact (conj (proj1 H list_1_not_listed) (proj2 H)).
Defined.

(** C3, the claim as first stated, fails.  The error value is a value of
    the result's own type that valid calls return too: [subterms] answers
    the list [[1]], a kind it does not handle, with the integer 0, its
    answer for the constant [c]; [next_subterm] answers the list with the
    null pointer, its answer for [f(1,2)] at index -1. *)
Lemma error_value_counterexample :
  subterms list_1 sample = ((in_default, 0), sample) /\
  subterms appl_c sample = ((in_case, 0), sample) /\
  next_subterm list_1 0 sample = ((in_default, NULL), sample) /\
  next_subterm appl_f12 (-1) sample = ((in_case, NULL), sample).
Proof. repeat split. Qed.

End OnCells.

(** * Properties of the term store *)

Section StoreFacts.

Import Store.

Lemma list_eqb_eq {A : Type} (eqb : A -> A -> bool) :
  (forall x y, eqb x y = true <-> x = y) ->
  forall xs ys, list_eqb eqb xs ys = true <-> xs = ys.
Proof.
  intros Heq xs.
  induction xs as [|x xs IH]; intros [|y ys]; cbn;
    try (split; [discriminate | discriminate]); try tauto.
  rewrite andb_true_iff, Heq, IH.
  split; [intros [-> ->]; reflexivity | intros H; inversion H; auto].
Qed.

Lemma byte_eqb_eq (x y : Byte.byte) : Strings.Byte.eqb x y = true <-> x = y.
Proof.
  split; [apply Strings.Byte.byte_dec_bl | apply Strings.Byte.byte_dec_lb].
Qed.

Lemma Symbol_eqb_eq (a b : Symbol) : Symbol_eqb a b = true <-> a = b.
Proof.
  unfold Symbol_eqb. rewrite andb_true_iff, !Nat.eqb_eq.
  destruct a, b; cbn.
  split; [intros [-> ->]; reflexivity | intros H; inversion H; auto].
Qed.

(** [Term_eqb] decides structural equality. *)
Lemma Term_eqb_eq (a b : Term) : Term_eqb a b = true <-> a = b.
Proof.
  destruct a, b; cbn; try (split; discriminate).
  - rewrite Z.eqb_eq. split; [intros ->; reflexivity | congruence].
  - rewrite Z.eqb_eq. split; [intros ->; reflexivity | congruence].
  - rewrite (list_eqb_eq _ byte_eqb_eq).
    split; [intros ->; reflexivity | congruence].
  - rewrite andb_true_iff, Symbol_eqb_eq, (list_eqb_eq _ Nat.eqb_eq).
    split; [intros [-> ->]; reflexivity | intros H; inversion H; auto].
Qed.

Lemma Term_eqb_refl (a : Term) : Term_eqb a a = true.
Proof. apply Term_eqb_eq. reflexivity. Qed.

(** A slot once found stays the first match when the store grows. *)
Lemma find_slot_app_found (tm : Term) (xs ys : list Term) :
  forall (base h : Handle),
    find_slot tm xs base = Some h ->
    find_slot tm (xs ++ ys) base = Some h.
Proof.
  induction xs as [|x xs IH]; intros base h H; cbn in *.
  - discriminate H.
  - destruct (Term_eqb tm x); [exact H | apply IH, H].
Qed.

(** A term not in the store is found, once appended, in the new slot. *)
Lemma find_slot_app_new (tm : Term) (xs : list Term) :
  forall base : Handle,
    find_slot tm xs base = None ->
    find_slot tm (xs ++ [tm]) base = Some (base + length xs)%nat.
Proof.
  induction xs as [|x xs IH]; intros base H; cbn in *.
  - rewrite Term_eqb_refl. f_equal. lia.
  - destruct (Term_eqb tm x); [discriminate H |].
    rewrite (IH _ H). f_equal. lia.
Qed.

(** After [intern], the term is in the store, first at the handle given. *)
Lemma intern_registers (st : Store) (tm : Term) :
  find_slot tm (snd (intern st tm)) O = Some (fst (intern st tm)).
Proof.
  unfold intern.
  destruct (find_slot tm st O) as [h|] eqn:E; cbn.
  - exact E.
  - apply (find_slot_app_new tm st O E).
Qed.

(** [intern] answers from the store when the term is there. *)
Lemma intern_found (st : Store) (tm : Term) (h : Handle) :
  find_slot tm st O = Some h -> intern st tm = (h, st).
Proof. unfold intern. intros ->. reflexivity. Qed.

(** The store only grows, at its end. *)
Lemma intern_extends (st : Store) (tm : Term) :
  exists ext, snd (intern st tm) = st ++ ext.
Proof.
  unfold intern. destruct (find_slot tm st O); cbn.
  - exists []. symmetry. apply app_nil_r.
  - exists [tm]. reflexivity.
Qed.

Lemma run_extends (st : Store) (c : call) :
  exists ext, snd (run st c) = st ++ ext.
Proof.
  destruct c as [s cs|v|b|bs]; cbn;
    unfold apply, integer, real, blob;
    try destruct (Nat.eqb _ _);
    try (exists []; symmetry; apply app_nil_r);
    match goal with
    | |- context [intern ?s ?t] =>
        destruct (intern_extends s t) as [ext He];
        destruct (intern s t) as [h st']; cbn in *; exists ext; exact He
    end.
Qed.

Lemma run_all_extends (cs : list call) :
  forall st : Store, exists ext, run_all st cs = st ++ ext.
Proof.
  induction cs as [|c cs IH]; intros st; cbn.
  - exists []. symmetry. apply app_nil_r.
  - destruct (run_extends st c) as [e1 H1].
    destruct (IH (snd (run st c))) as [e2 H2].
    exists (e1 ++ e2). unfold run_all in H2. rewrite H2, H1.
    symmetry. apply app_assoc.
Qed.

(** Interning the same term again, after the store has taken any further
    calls, gives the handle of the first time and leaves the store. *)
Lemma intern_again (st : Store) (tm : Term) (between : list call) :
  let st' := run_all (snd (intern st tm)) between in
  intern st' tm = (fst (intern st tm), st').
Proof.
  cbv zeta.
  destruct (run_all_extends between (snd (intern st tm))) as [ext He].
  rewrite He. apply intern_found, find_slot_app_found, intern_registers.
Qed.

(** Building [f(1,2)] twice gives one handle and one slot; building [f]
    on a single child is refused. *)
Example apply_twice :
  let f := {| name := 1; arity := 2 |} in
  let st := run_all [] [call_integer 1; call_integer 2] in
  apply st f [0%nat; 1%nat] =
    (inl 2%nat, [Integer 1; Integer 2; Application f [0%nat; 1%nat]]) /\
  apply (snd (apply st f [0%nat; 1%nat])) f [0%nat; 1%nat] =
    (inl 2%nat, [Integer 1; Integer 2; Application f [0%nat; 1%nat]]) /\
  apply st f [0%nat] = (inr ArityMismatch, st).
Proof. repeat split. Qed.

(** C6. Two construction calls with structurally identical arguments
    return equal handles, whatever calls the store has taken in between:
    the second call returns what the first returned (the same handle, or
    the same ArityMismatch), and it adds nothing to the store. *)
Theorem interning_is_idempotent (st : Store) (c : call)
    (between : list call) :
  let st' := run_all (snd (run st c)) between in
  fst (run st' c) = fst (run st c) /\ snd (run st' c) = st'.
Proof.
  cbv zeta.
  destruct c as [s cs|v|b|bs]; cbn; unfold apply, integer, real, blob.
  1: destruct (Nat.eqb (length cs) (arity s)); [| split; reflexivity].
  all: match goal with
       | |- context [run_all (snd (let (_, _) := intern ?s ?t in _)) ?b] =>
           pose proof (intern_again s t b) as Hag; cbv zeta in Hag;
           destruct (intern s t) as [h st1]; cbn in *;
           rewrite Hag; split; reflexivity
       end.
Qed.

End StoreFacts.

(** * The two accessors used together *)

Section Together.

Context {L : ATermLib}.

(** X1. A count other than 0 vouches for the kind: when [subterms(t)]
    returns a nonzero value, the tag of [t] is one of the four case labels,
    the value came from the case [return], and [next_subterm(t, n)] then
    never answers from its [default:] branch: for every [n] it returns
    [ATgetArgument(t, n)]. *)
Theorem nonzero_count_means_listed_kind (m : heap) (t : ATerm) :
  subterms_result m t <> 0 ->
  listed_kind (type_of m t) /\
  subterms_branch m t = in_case /\
  forall n : Z, next_subterm t n m = ((in_case, ATgetArgument m t n), m).
Proof.
  intros Hnz.
  assert (Hl : listed_kind (type_of m t)).
  { apply case_of_listed.
    destruct (case_of (type_of m t) [AT_INT; AT_REAL; AT_BLOB; AT_APPL])
      eqn:E; [reflexivity |].
    exfalso. apply Hnz. unfold subterms_result.
    rewrite subterms_run, E. reflexivity. }
  split; [exact Hl | split].
  - unfold subterms_branch. rewrite (subterms_listed m t Hl). reflexivity.
  - intros n. apply next_subterm_listed, Hl.
Qed.

(** X2. A loop bounded by [subterms(t)] never meets the null pointer of
    [next_subterm]'s [default:] branch: for every term, of any kind, the
    enumeration at the indices 0 up to [subterms(t) - 1] is the sequence of
    the library's [ATgetArgument(t, i)] at those indices; for a term of a
    kind the switches do not list it is empty, since the count is 0 there
    and the loop body never runs; and it is empty as well when the arity
    the library reports is zero or negative. *)
Theorem enumeration_is_the_argument_words (m : heap) (t : ATerm) :
  fst (children t m) =
    map (fun i : nat => ATgetArgument m t (Z.of_nat i))
        (seq 0 (Z.to_nat (subterms_result m t))) /\
  (~ listed_kind (type_of m t) -> fst (children t m) = []) /\
  (subterms_result m t <= 0 -> fst (children t m) = []).
Proof.
  rewrite children_run. cbn [fst].
  assert (Hun : ~ listed_kind (type_of m t) -> subterms_result m t = 0).
  { intros Hn. unfold subterms_result.
    rewrite (subterms_unlisted m t Hn). reflexivity. }
  split; [| split].
  - destruct (case_of (type_of m t) [AT_INT; AT_REAL; AT_BLOB; AT_APPL])
      eqn:E.
    + apply case_of_listed in E.
      apply map_ext. intros i. unfold next_subterm_result.
      rewrite (next_subterm_listed m t _ E). reflexivity.
    + apply case_of_not_listed in E. rewrite (Hun E). reflexivity.
  - intros Hn. rewrite (Hun Hn). reflexivity.
  - intros Hle.
    replace (Z.to_nat (subterms_result m t)) with O by lia.
    reflexivity.
Qed.

End Together.

Section TogetherOnCells.

#[local] Existing Instance Cells.lib.

Import Cells.

(** X1 at [f(1,2)] of the sample heap, whose count is 2. *)
Lemma nonzero_count_means_listed_kind_witness :
  subterms_result sample appl_f12 <> 0 /\
  listed_kind (type_of sample appl_f12) /\
  subterms_branch sample appl_f12 = in_case /\
  forall n : Z,
    next_subterm appl_f12 n sample =
      ((in_case, ATgetArgument sample appl_f12 n), sample).
Proof.
  assert (H : subterms_result sample appl_f12 <> 0) by discriminate.
  exact (conj H (nonzero_count_means_listed_kind sample appl_f12 H)).
Defined.

(** X2 at the list [[1]] and at the constant [c] of the sample heap. *)
Lemma enumeration_is_the_argument_words_witness :
  fst (children list_1 sample) = [] /\
  fst (children appl_c sample) = [].
Proof.
  split.
  - exact (proj1 (proj2 (enumeration_is_the_argument_words sample list_1))
             list_1_not_listed).
  - apply (proj2 (proj2
             (enumeration_is_the_argument_words (L := lib) sample appl_c))).
    discriminate.
Defined.

End TogetherOnCells.
